(** * PNG prompt metadata (package [metadata])

    A shallow embedding of [AddPromptToPNG], [createTextChunk],
    [ReadPromptFromPNG] and [convertJPEGToPNG], with the byte-level
    properties of the tEXt chunk they write and read back. *)

From Stdlib Require Import List NArith ZArith Lia Bool String.
From Stdlib.Strings Require Import Byte.
Import ListNotations.

Local Open Scope N_scope.

(* [String] has a [length] of its own; lists are meant throughout. *)
Local Abbreviation length := Datatypes.length.

(** ** Bytes, strings and fixed-width integers *)

(** A Go [[]byte] and a Go [string] are both byte sequences. *)
Definition bytes := list byte.

Definition str (s : string) : bytes := list_byte_of_string s.

Fixpoint bytes_eqb (a b : bytes) : bool :=
  match a, b with
  | [], [] => true
  | x :: a', y :: b' => Byte.eqb x y && bytes_eqb a' b'
  | _, _ => false
  end.

(** Go's [len] as an unbounded number. *)
Definition len (b : bytes) : N := N.of_nat (length b).

(** The conversion [byte(v)] keeps the low eight bits. *)
Definition byte_of_N (v : N) : byte :=
  match Byte.of_N (v mod 256) with
  | Some b => b
  | None => x00
  end.

(** The conversion [uint32(v)] keeps the low 32 bits. *)
Definition uint32 (v : N) : N := v mod 2 ^ 32.

(** [binary.BigEndian.PutUint32]. *)
Definition PutUint32 (v : N) : bytes :=
  [ byte_of_N (N.shiftr v 24); byte_of_N (N.shiftr v 16);
    byte_of_N (N.shiftr v 8); byte_of_N v ].

(** [binary.BigEndian.Uint32] on a four-byte slice. *)
Definition Uint32 (b : bytes) : N :=
  match b with
  | [b0; b1; b2; b3] =>
      N.lor (N.lor (N.lor (Byte.to_N b3) (N.shiftl (Byte.to_N b2) 8))
                   (N.shiftl (Byte.to_N b1) 16))
            (N.shiftl (Byte.to_N b0) 24)
  | _ => 0
  end.

(** [bytes.IndexByte]: the index of the first [c], or -1. *)
Fixpoint IndexByte (b : bytes) (c : byte) : Z :=
  match b with
  | [] => (-1)%Z
  | x :: b' =>
      if Byte.eqb x c then 0%Z
      else let i := IndexByte b' c in
           if (i <? 0)%Z then (-1)%Z else (i + 1)%Z
  end.

(** Go slice expressions [b[:n]] and [b[n:]] for [n] within bounds. *)
Definition slice_to (b : bytes) (n : nat) : bytes := firstn n b.
Definition slice_from (b : bytes) (n : nat) : bytes := skipn n b.

(** ** CRC-32 *)

(** Modelled from the spec: [hash/crc32.ChecksumIEEE] belongs to Go's standard
    library and is not under src/.  It is the CRC-32 of IEEE 802.3: reflected
    polynomial 0xEDB88320, initial value and final complement 0xFFFFFFFF. *)
Module crc32.

Definition IEEE : N := 0xEDB88320.

Definition shift1 (c : N) : N :=
  if N.testbit c 0 then N.lxor (N.shiftr c 1) IEEE else N.shiftr c 1.

Definition update_byte (c : N) (b : byte) : N :=
  N.iter 8 shift1 (N.lxor c (Byte.to_N b)).

Definition ChecksumIEEE (data : bytes) : N :=
  N.lxor (fold_left update_byte data 0xFFFFFFFF) 0xFFFFFFFF.

End crc32.

(** ** Constants of the format *)

(** [[]byte{137, 80, 78, 71, 13, 10, 26, 10}] *)
Definition pngSignature : bytes := [x89; x50; x4e; x47; x0d; x0a; x1a; x0a].

(** [[]byte{0xFF, 0xD8}] *)
Definition jpegMagic : bytes := [xff; xd8].

Definition tEXt : bytes := str "tEXt".
Definition IEND : bytes := str "IEND".
Definition Prompt : bytes := str "Prompt".

(** ** Errors *)

(** The two errors [io.ReadFull] gives on a short read. *)
Inductive io_error : Type :=
| EOF
| ErrUnexpectedEOF.

(** The four ways [convertJPEGToPNG] fails. *)
Inductive convert_error : Type :=
| ConvOpen              (* the error of [os.Open] *)
| ConvDecode            (* "failed to decode JPEG: %w" *)
| ConvCreate            (* the error of [os.Create] *)
| ConvEncode.           (* "failed to encode PNG: %w" *)

(** One constructor per error the package builds; the comment gives the
    message of the source. *)
Inductive error : Type :=
| ErrReadImage          (* "failed to read image file: %w" *)
| ErrNotImage           (* "file is neither PNG nor JPEG format" *)
| ErrConvert (e : convert_error) (* "failed to convert JPEG to PNG: %w" *)
| ErrReadConverted      (* "failed to read converted PNG file: %w" *)
| ErrTooShort           (* "PNG file too short" *)
| ErrWrite              (* "failed to write PNG file: %w" *)
| ErrOpen               (* "failed to open PNG file: %w" *)
| ErrReadSignature (e : io_error) (* "failed to read PNG signature: %w" *)
| ErrNotPNG             (* "not a valid PNG file" *)
| ErrNoPrompt           (* "no Prompt metadata found in PNG" *)
| ErrIO (e : io_error). (* a read error returned as it is *)

Definition result (A : Type) : Type := (error + A)%type.
Definition Ok {A : Type} (a : A) : result A := inr a.
Definition Err {A : Type} (e : error) : result A := inl e.

(** ** createTextChunk *)

Definition createTextChunk (keyword text : bytes) : bytes :=
  let chunkData := keyword ++ [x00] ++ text in
  let crcData := tEXt ++ chunkData in
  let crc := crc32.ChecksumIEEE crcData in
  PutUint32 (uint32 (len chunkData)) ++ tEXt ++ chunkData ++ PutUint32 crc.

(** ** Reading from an open file *)

(** A file opened for reading is the bytes not yet consumed.  A read either
    fails or gives a value and the bytes left. *)
Definition reader (A : Type) : Type := bytes -> io_error + (A * bytes).

(** [io.ReadFull(file, buf)] with [len(buf) = n]: an empty buffer is filled at
    once, an exhausted file gives [io.EOF], a file with fewer than [n] bytes
    left gives [io.ErrUnexpectedEOF]. *)
Definition ReadFull (n : N) : reader bytes := fun r =>
  if n =? 0 then inr ([], r)
  else match r with
       | [] => inl EOF
       | _ :: _ =>
           if len r <? n then inl ErrUnexpectedEOF
           else inr (firstn (N.to_nat n) r, skipn (N.to_nat n) r)
       end.

(** [binary.Read(file, binary.BigEndian, &v)] for [v] a [uint32]: four bytes
    through [io.ReadFull], decoded big-endian. *)
Definition binary_Read_uint32 : reader N := fun r =>
  match ReadFull 4 r with
  | inl e => inl e
  | inr (bs, r') => inr (Uint32 bs, r')
  end.

(** ** ReadPromptFromPNG *)

(** What one turn of the [for] loop does. *)
Inductive iteration : Type :=
| Return (text : bytes)       (* [return text, nil] *)
| Fail (e : error)            (* [return "", err] *)
| Next (rest : bytes).        (* falls through to the next turn *)

(** The test of lines 160-166 on a chunk that was read: type "tEXt", a first
    null byte at a position greater than zero, and "Prompt" before it.  The
    text after the null byte is returned on a match. *)
Definition matchPrompt (chunkType chunkData : bytes) : option bytes :=
  if bytes_eqb chunkType tEXt then
    let nullPos := IndexByte chunkData x00 in
    if (nullPos >? 0)%Z then
      let keyword := slice_to chunkData (Z.to_nat nullPos) in
      if bytes_eqb keyword Prompt
      then Some (slice_from chunkData (Z.to_nat (nullPos + 1)))
      else None
    else None
  else None.

(** The body of the loop (lines 132-175) on the bytes left in the file.  The
    allocation [make([]byte, length)] is taken to succeed. *)
Definition readChunk (r : bytes) : iteration :=
  match binary_Read_uint32 r with
  | inl EOF => Fail ErrNoPrompt
  | inl e => Fail (ErrIO e)
  | inr (length, r1) =>
  match ReadFull 4 r1 with
  | inl e => Fail (ErrIO e)
  | inr (chunkType, r2) =>
  match ReadFull length r2 with
  | inl e => Fail (ErrIO e)
  | inr (chunkData, r3) =>
  match binary_Read_uint32 r3 with
  | inl e => Fail (ErrIO e)
  | inr (_, r4) =>
      match matchPrompt chunkType chunkData with
      | Some text => Return text
      | None =>
          if bytes_eqb chunkType IEND then Fail ErrNoPrompt else Next r4
      end
  end end end end.

(** The loop itself.  [fuel] bounds the number of turns; [None] means the
    bound was reached. *)
Fixpoint readChunks (fuel : nat) (r : bytes) : option (result bytes) :=
  match fuel with
  | O => None
  | S fuel' =>
      match readChunk r with
      | Return text => Some (Ok text)
      | Fail e => Some (Err e)
      | Next r' => readChunks fuel' r'
      end
  end.

(** The loop run on the bytes [r].  Every turn that goes on consumes at least
    twelve bytes, so [length r] turns are never used up ([readChunks_fuel]
    below) and the last branch is not taken. *)
Definition readLoop (r : bytes) : result bytes :=
  match readChunks (S (length r)) r with
  | Some res => res
  | None => Err ErrNoPrompt
  end.

(** [ReadPromptFromPNG] on the contents of the opened file (lines 121-177). *)
Definition ReadPromptFromPNG_data (data : bytes) : result bytes :=
  match ReadFull 8 data with
  | inl e => Err (ErrReadSignature e)
  | inr (sig, r) =>
      if negb (bytes_eqb sig pngSignature) then Err ErrNotPNG
      else readLoop r
  end.

(** ** AddPromptToPNG on the bytes of the file *)

(** Line 39. *)
Definition isPNG (data : bytes) : bool :=
  (8 <=? len data) && bytes_eqb (slice_to data 8) pngSignature.

(** Line 44. *)
Definition isJPEG (data : bytes) : bool :=
  (2 <=? len data) && bytes_eqb (slice_to data 2) jpegMagic.

(** Lines 66-75: the chunk goes twelve bytes before the end. *)
Definition insertBeforeIEND (data textChunk : bytes) : result bytes :=
  if len data <? 12 then Err ErrTooShort
  else
    let insertPos := (length data - 12)%nat in
    Ok (slice_to data insertPos ++ textChunk ++ slice_from data insertPos).

(** Lines 61-75: what is written back for file contents [data] that are, or
    have been converted to, PNG. *)
Definition insertPrompt (data prompt : bytes) : result bytes :=
  let textChunk := createTextChunk Prompt prompt in
  insertBeforeIEND data textChunk.

(** ** The file system *)

(** A path names at most one readable file; [writable] tells which paths can
    be created or overwritten.  A write happens in full or is refused: a
    write that stops half way is not modelled. *)
Record filesystem : Type := {
  contents : string -> option bytes;
  writable : string -> bool
}.

(** The file system once [data] has been stored at [path]. *)
Definition store (path : string) (data : bytes) (fs : filesystem) : filesystem :=
  {| contents := fun p => if String.eqb p path then Some data else contents fs p;
     writable := writable fs |}.

(** [os.ReadFile]. *)
Definition ReadFile (path : string) (fs : filesystem) : option bytes :=
  contents fs path.

(** [os.WriteFile]: [true] when the file was written. *)
Definition WriteFile (path : string) (data : bytes) (fs : filesystem)
  : bool * filesystem :=
  if writable fs path then (true, store path data fs) else (false, fs).

Section Metadata.

(** [image/jpeg] and [image/png] are Go's standard library.  A decoded
    image, [jpeg.Decode] on the bytes of a file, and [png.Encode], which
    gives the bytes it wrote and whether it succeeded, are parameters. *)
Variable image : Type.
Variable jpeg_Decode : bytes -> option image.
Variable png_Encode : image -> bytes * bool.

(** [convertJPEGToPNG]: the error, if any, and the file system left. *)
Definition convertJPEGToPNG (filepath : string) (fs : filesystem)
  : option convert_error * filesystem :=
  match contents fs filepath with
  | None => (Some ConvOpen, fs)
  | Some file =>
      match jpeg_Decode file with
      | None => (Some ConvDecode, fs)
      | Some img =>
          if writable fs filepath then
            let (written, ok) := png_Encode img in
            (if ok then None else Some ConvEncode, store filepath written fs)
          else (Some ConvCreate, fs)
      end
  end.

(** Lines 61-82: insert the chunk and write the file. *)
Definition insertAndWrite (filepath : string) (data prompt : bytes)
    (fs : filesystem) : option error * filesystem :=
  match insertPrompt data prompt with
  | inl e => (Some e, fs)
  | inr newData =>
      let (ok, fs') := WriteFile filepath newData fs in
      (if ok then None else Some ErrWrite, fs')
  end.

(** [AddPromptToPNG]: the error, if any ([None] is Go's [nil]), and the
    file system left. *)
Definition AddPromptToPNG (filepath : string) (prompt : bytes)
    (fs : filesystem) : option error * filesystem :=
  match ReadFile filepath fs with
  | None => (Some ErrReadImage, fs)
  | Some data =>
      if isPNG data then insertAndWrite filepath data prompt fs
      else if negb (isJPEG data) then (Some ErrNotImage, fs)
      else
        match convertJPEGToPNG filepath fs with
        | (Some e, fs1) => (Some (ErrConvert e), fs1)
        | (None, fs1) =>
            match ReadFile filepath fs1 with
            | None => (Some ErrReadConverted, fs1)
            | Some data' => insertAndWrite filepath data' prompt fs1
            end
        end
  end.

End Metadata.


(** ** Containers *)

(** A chunk as it lies in a file: type, data and the stored checksum.  The
    length field is not kept: it is written from [cdata]. *)
Record chunk : Type := {
  ctype : bytes;
  cdata : bytes;
  ccrc : N
}.

Definition serialize (c : chunk) : bytes :=
  PutUint32 (len (cdata c)) ++ ctype c ++ cdata c ++ PutUint32 (ccrc c).

Definition serialize_all (cs : list chunk) : bytes := flat_map serialize cs.

(** The type takes four bytes and the length fits the 32-bit field. *)
Definition framed (c : chunk) : Prop :=
  length (ctype c) = 4%nat /\ len (cdata c) < 2 ^ 32.

(** The stored checksum is the CRC-32 of type and data. *)
Definition crc_ok (c : chunk) : Prop :=
  ccrc c = crc32.ChecksumIEEE (ctype c ++ cdata c).

(** The chunk is one [ReadPromptFromPNG] returns from. *)
Definition is_prompt (c : chunk) : bool :=
  match matchPrompt (ctype c) (cdata c) with
  | Some _ => true
  | None => false
  end.

(** The terminal chunk: length 0, type "IEND", its checksum. *)
Definition IEND_chunk : bytes :=
  [x00; x00; x00; x00; x49; x45; x4e; x44; xae; x42; x60; x82].

(** [b] is the signature, the chunks [cs], none of them of type "IEND", and
    the terminal chunk. *)
Definition container_of (cs : list chunk) (b : bytes) : Prop :=
  b = pngSignature ++ serialize_all cs ++ IEND_chunk /\
  Forall framed cs /\
  Forall (fun c => ctype c <> IEND) cs.

(** A valid container also has every checksum right. *)
Definition valid_container_of (cs : list chunk) (b : bytes) : Prop :=
  container_of cs b /\ Forall crc_ok cs.

Definition valid_container (b : bytes) : Prop :=
  exists cs, valid_container_of cs b.

(** No chunk of the list is a match for [ReadPromptFromPNG]. *)
Definition no_prompt (cs : list chunk) : Prop :=
  Forall (fun c => is_prompt c = false) cs.

(** The chunk [createTextChunk] writes, as a record. *)
Definition text_chunk (keyword text : bytes) : chunk :=
  {| ctype := tEXt;
     cdata := keyword ++ [x00] ++ text;
     ccrc := crc32.ChecksumIEEE (tEXt ++ keyword ++ [x00] ++ text) |}.

(** The smallest container: signature and terminal chunk. *)
Definition minimal_png : bytes := pngSignature ++ IEND_chunk.

(** What a turn of the loop does when the whole chunk [c] lies ahead. *)
Definition turn_on (c : chunk) (rest : bytes) : iteration :=
  match matchPrompt (ctype c) (cdata c) with
  | Some text => Return text
  | None => if bytes_eqb (ctype c) IEND then Fail ErrNoPrompt else Next rest
  end.

(** The terminal chunk as a record. *)
Definition IEND_record : chunk :=
  {| ctype := IEND; cdata := []; ccrc := 0xAE426082 |}.

(** Sample containers.  A container that already holds the prompt "old". *)
Definition png_with_old_prompt : bytes :=
  pngSignature ++ createTextChunk Prompt (str "old") ++ IEND_chunk.

(** A chunk of another type, with its checksum. *)
Definition header_record : chunk :=
  {| ctype := str "gAMA";
     cdata := [x00; x00; xb1; x8f];
     ccrc := crc32.ChecksumIEEE (str "gAMA" ++ [x00; x00; xb1; x8f]) |}.

Definition png_with_header : bytes :=
  pngSignature ++ serialize_all [header_record] ++ IEND_chunk.




(** A sample file system: a minimal PNG, a file with the JPEG marker, a text
    file, and a PNG at a path that cannot be written. *)
Definition sample_fs : filesystem :=
  {| contents := fun p =>
       if String.eqb p "out.png" then Some minimal_png
       else if String.eqb p "photo.jpg" then Some (jpegMagic ++ str "JFIF")
       else if String.eqb p "note.txt" then Some (str "hello")
       else if String.eqb p "locked.png" then Some minimal_png
       else None;
     writable := fun p => negb (String.eqb p "locked.png") |}.

(** The text of the first chunk of the list that [ReadPromptFromPNG] returns
    from, if there is one. *)
Fixpoint first_prompt (cs : list chunk) : option bytes :=
  match cs with
  | [] => None
  | c :: cs' =>
      match matchPrompt (ctype c) (cdata c) with
      | Some text => Some text
      | None => first_prompt cs'
      end
  end.


(** The error kinds of the design, and the kind each error of the package
    falls under.  A read error returned as it is ([io.EOF] or
    [io.ErrUnexpectedEOF] from the middle of a chunk) and "PNG file too
    short" are the truncation errors. *)
Inductive error_kind : Type :=
| UnsupportedFormat
| TruncatedContainer
| TranscodeFailure
| RecordNotFound
| IOFailure.

Definition kind_of (e : error) : error_kind :=
  match e with
  | ErrReadImage | ErrReadConverted | ErrWrite | ErrOpen => IOFailure
  | ErrConvert ConvDecode | ErrConvert ConvEncode => TranscodeFailure
  | ErrConvert ConvOpen | ErrConvert ConvCreate => IOFailure
  | ErrNotImage | ErrNotPNG | ErrReadSignature _ => UnsupportedFormat
  | ErrTooShort | ErrIO _ => TruncatedContainer
  | ErrNoPrompt => RecordNotFound
  end.

(** * Properties *)

(** ** Bytes and integers *)

Lemma bytes_eqb_eq (a b : bytes) : bytes_eqb a b = true <-> a = b.
Proof.
  revert b; induction a as [|x a IH]; intros [|y b]; simpl;
    try (split; [discriminate | discriminate]); try tauto.
  rewrite andb_true_iff, IH. split.
  - intros [Hx ->]. apply byte_dec_bl in Hx. now subst.
  - intros [= -> ->]. split; [now apply byte_dec_lb | reflexivity].
Qed.

Lemma bytes_eqb_refl (a : bytes) : bytes_eqb a a = true.
Proof. now apply bytes_eqb_eq. Qed.

Lemma bytes_eqb_neq (a b : bytes) : a <> b -> bytes_eqb a b = false.
Proof.
  intros H. destruct (bytes_eqb a b) eqn:E; [|reflexivity].
  apply bytes_eqb_eq in E. contradiction.
Qed.

Lemma to_N_byte_of_N (v : N) : Byte.to_N (byte_of_N v) = v mod 2 ^ 8.
Proof.
  unfold byte_of_N. change (2 ^ 8) with 256.
  destruct (Byte.of_N (v mod 256)) as [b|] eqn:E.
  - now apply Byte.to_of_N.
  - apply Byte.of_N_None_iff in E.
    pose proof (N.mod_upper_bound v 256). lia.
Qed.

Lemma PutUint32_length (v : N) : length (PutUint32 v) = 4%nat.
Proof. reflexivity. Qed.

Lemma testbit_below_pow2 (v k n : N) : v < 2 ^ k -> k <= n -> N.testbit v n = false.
Proof.
  intros Hv Hn. rewrite <- (N.mod_small v (2 ^ k)) by exact Hv.
  now apply N.mod_pow2_bits_high.
Qed.

(** Decoding what [PutUint32] wrote gives the value back when it fits. *)
Lemma Uint32_PutUint32 (v : N) : v < 2 ^ 32 -> Uint32 (PutUint32 v) = v.
Proof.
  intros Hv. unfold PutUint32, Uint32. rewrite !to_N_byte_of_N.
  apply N.bits_inj. intros n. rewrite !N.lor_spec.
  destruct (N.lt_ge_cases n 8) as [H8|H8].
  { rewrite N.mod_pow2_bits_low by exact H8.
    rewrite !N.shiftl_spec_low by lia. now rewrite !orb_false_r. }
  rewrite (N.mod_pow2_bits_high v 8 n) by exact H8. rewrite ?orb_false_l, ?orb_false_r.
  destruct (N.lt_ge_cases n 16) as [H16|H16].
  { rewrite (N.shiftl_spec_high' _ 8) by exact H8.
    rewrite N.mod_pow2_bits_low by lia.
    rewrite !N.shiftl_spec_low by lia. rewrite !orb_false_r.
    rewrite N.shiftr_spec'. f_equal. lia. }
  rewrite (N.shiftl_spec_high' _ 8) by exact H8.
  rewrite (N.mod_pow2_bits_high _ 8 (n - 8)) by lia. rewrite ?orb_false_l, ?orb_false_r.
  destruct (N.lt_ge_cases n 24) as [H24|H24].
  { rewrite (N.shiftl_spec_high' _ 16) by exact H16.
    rewrite N.mod_pow2_bits_low by lia.
    rewrite !N.shiftl_spec_low by lia. rewrite !orb_false_r.
    rewrite N.shiftr_spec'. f_equal. lia. }
  rewrite (N.shiftl_spec_high' _ 16) by exact H16.
  rewrite (N.mod_pow2_bits_high _ 8 (n - 16)) by lia. rewrite ?orb_false_l, ?orb_false_r.
  rewrite (N.shiftl_spec_high' _ 24) by exact H24.
  destruct (N.lt_ge_cases n 32) as [H32|H32].
  { rewrite N.mod_pow2_bits_low by lia.
    rewrite N.shiftr_spec'. f_equal. lia. }
  rewrite N.mod_pow2_bits_high by lia.
  symmetry. now apply (testbit_below_pow2 v 32).
Qed.

Lemma uint32_small (v : N) : v < 2 ^ 32 -> uint32 v = v.
Proof. intros H. now apply N.mod_small. Qed.

Lemma uint32_bound (v : N) : uint32 v < 2 ^ 32.
Proof. apply N.mod_upper_bound. discriminate. Qed.

Lemma len_app (a b : bytes) : len (a ++ b) = len a + len b.
Proof. unfold len. rewrite length_app. lia. Qed.

(** [IndexByte] is -1 or an index into the slice whose byte is [c] and before
    which no byte is [c]. *)
Lemma IndexByte_range (b : bytes) (c : byte) :
  (IndexByte b c = -1 \/ 0 <= IndexByte b c < Z.of_nat (length b))%Z.
Proof.
  induction b as [|x b IH]; simpl; [now left|].
  destruct (Byte.eqb x c); [right; lia|].
  destruct (IndexByte b c <? 0)%Z eqn:E; [now left|].
  apply Z.ltb_ge in E. right. lia.
Qed.

Lemma IndexByte_app_first (a rest : bytes) (c : byte) :
  ~ In c a -> IndexByte (a ++ c :: rest) c = Z.of_nat (length a).
Proof.
  induction a as [|x a IH]; simpl; intros Hin.
  - now rewrite (byte_dec_lb eq_refl).
  - destruct (Byte.eqb x c) eqn:E.
    + apply byte_dec_bl in E. subst. exfalso. apply Hin. now left.
    + rewrite IH by (intros H; apply Hin; now right).
      destruct (Z.of_nat (length a) <? 0)%Z eqn:E'; [apply Z.ltb_lt in E'|]; lia.
Qed.


(** ** Reads *)

Lemma ReadFull_app (a rest : bytes) : ReadFull (len a) (a ++ rest) = inr (a, rest).
Proof.
  unfold ReadFull. destruct (len a =? 0) eqn:E0.
  - apply N.eqb_eq in E0. destruct a; [reflexivity | discriminate].
  - apply N.eqb_neq in E0.
    destruct (a ++ rest) as [|y l] eqn:El.
    + destruct a; [now elim E0 | discriminate].
    + rewrite <- El.
      replace (len (a ++ rest) <? len a) with false
        by (symmetry; apply N.ltb_ge; rewrite len_app; lia).
      unfold len. rewrite Nat2N.id.
      rewrite firstn_app, skipn_app, Nat.sub_diag, firstn_all, skipn_all.
      simpl. now rewrite app_nil_r.
Qed.

Lemma ReadFull_exact (n : nat) (a rest : bytes) :
  length a = n -> ReadFull (N.of_nat n) (a ++ rest) = inr (a, rest).
Proof. intros <-. apply ReadFull_app. Qed.

Lemma ReadFull_4 (a rest : bytes) :
  length a = 4%nat -> ReadFull 4 (a ++ rest) = inr (a, rest).
Proof. apply (ReadFull_exact 4). Qed.

Lemma ReadFull_8 (a rest : bytes) :
  length a = 8%nat -> ReadFull 8 (a ++ rest) = inr (a, rest).
Proof. apply (ReadFull_exact 8). Qed.

(** A read that succeeds splits the bytes left into what was read and the
    rest. *)
Lemma ReadFull_inv (n : N) (r a r' : bytes) :
  ReadFull n r = inr (a, r') -> r = a ++ r' /\ len a = n.
Proof.
  unfold ReadFull. destruct (n =? 0) eqn:E0.
  - apply N.eqb_eq in E0. intros [= <- <-]. now subst.
  - destruct r as [|x r]; [discriminate|].
    destruct (len (x :: r) <? n) eqn:El; [discriminate|].
    apply N.ltb_ge in El. intros [= <- <-]. split.
    + symmetry. apply firstn_skipn.
    + unfold len in *. rewrite length_firstn. lia.
Qed.

(** A read fails exactly when fewer than [n] bytes, and not zero of zero,
    are left. *)
Lemma ReadFull_fails (n : N) (r : bytes) (e : io_error) :
  ReadFull n r = inl e ->
  len r < n /\ (e = EOF <-> r = []).
Proof.
  unfold ReadFull. destruct (n =? 0) eqn:E0; [discriminate|].
  apply N.eqb_neq in E0. destruct r as [|x r].
  - intros [= <-]. split; [unfold len; simpl; lia | tauto].
  - destruct (len (x :: r) <? n) eqn:El; [|discriminate].
    apply N.ltb_lt in El. intros [= <-]. split; [exact El|].
    split; discriminate.
Qed.

Lemma binary_Read_uint32_PutUint32 (v : N) (rest : bytes) :
  v < 2 ^ 32 -> binary_Read_uint32 (PutUint32 v ++ rest) = inr (v, rest).
Proof.
  intros Hv. unfold binary_Read_uint32.
  rewrite (ReadFull_4 (PutUint32 v) rest (PutUint32_length v)).
  now rewrite Uint32_PutUint32.
Qed.

Lemma binary_Read_uint32_any (a rest : bytes) :
  length a = 4%nat -> binary_Read_uint32 (a ++ rest) = inr (Uint32 a, rest).
Proof.
  intros Ha. unfold binary_Read_uint32. now rewrite (ReadFull_4 a rest Ha).
Qed.

Lemma binary_Read_uint32_inv (r r' : bytes) (v : N) :
  binary_Read_uint32 r = inr (v, r') -> exists a, r = a ++ r' /\ length a = 4%nat.
Proof.
  unfold binary_Read_uint32. destruct (ReadFull 4 r) as [e|[a r1]] eqn:E;
    [discriminate|].
  intros [= _ <-]. apply ReadFull_inv in E as [-> Hl]. exists a. split; [reflexivity|].
  unfold len in Hl. lia.
Qed.

(** ** One turn of the loop *)

Lemma readChunk_serialize (c : chunk) (rest : bytes) :
  framed c -> readChunk (serialize c ++ rest) = turn_on c rest.
Proof.
  intros [Ht Hl]. unfold readChunk, serialize. rewrite <- !app_assoc.
  rewrite binary_Read_uint32_PutUint32 by exact Hl.
  rewrite (ReadFull_4 (ctype c) _ Ht).
  rewrite ReadFull_app.
  rewrite (binary_Read_uint32_any (PutUint32 (ccrc c)) rest (PutUint32_length _)).
  reflexivity.
Qed.

(** A turn that goes on has consumed at least twelve bytes. *)
Lemma readChunk_Next (r r' : bytes) :
  readChunk r = Next r' -> (length r' + 12 <= length r)%nat.
Proof.
  unfold readChunk.
  destruct (binary_Read_uint32 r) as [[|]|[n r1]] eqn:E1; try discriminate.
  destruct (ReadFull 4 r1) as [e|[ty r2]] eqn:E2; [discriminate|].
  destruct (ReadFull n r2) as [e|[da r3]] eqn:E3; [discriminate|].
  destruct (binary_Read_uint32 r3) as [e|[crc r4]] eqn:E4; [discriminate|].
  destruct (matchPrompt ty da); [discriminate|].
  destruct (bytes_eqb ty IEND); [discriminate|]. intros [= <-].
  apply binary_Read_uint32_inv in E1 as (a1 & -> & H1).
  apply ReadFull_inv in E2 as [-> H2]. apply ReadFull_inv in E3 as [-> H3].
  apply binary_Read_uint32_inv in E4 as (a4 & -> & H4).
  unfold len in H2. rewrite !length_app. lia.
Qed.

(** ** The loop *)

(** The bound on the turns is never reached. *)
Lemma readChunks_fuel (fuel : nat) (r : bytes) :
  (length r < fuel)%nat -> readChunks fuel r <> None.
Proof.
  revert r. induction fuel as [|fuel IH]; intros r Hr; [lia|].
  simpl. destruct (readChunk r) as [t|e|r'] eqn:E; try discriminate.
  apply IH. apply readChunk_Next in E. lia.
Qed.

(** More turns than needed change nothing. *)
Lemma readChunks_more (f1 f2 : nat) (r : bytes) :
  (length r < f1)%nat -> (length r < f2)%nat -> readChunks f1 r = readChunks f2 r.
Proof.
  revert f2 r. induction f1 as [|f1 IH]; intros f2 r H1 H2; [lia|].
  destruct f2 as [|f2]; [lia|]. simpl.
  destruct (readChunk r) as [t|e|r'] eqn:E; try reflexivity.
  apply readChunk_Next in E. apply IH; lia.
Qed.

(** The equation of the loop: one turn, then the loop on what is left. *)
Lemma readLoop_eq (r : bytes) :
  readLoop r =
  match readChunk r with
  | Return text => Ok text
  | Fail e => Err e
  | Next r' => readLoop r'
  end.
Proof.
  unfold readLoop at 1. simpl.
  destruct (readChunk r) as [t|e|r'] eqn:E; try reflexivity.
  unfold readLoop.
  rewrite (readChunks_more (length r) (S (length r')) r'); [reflexivity| |lia].
  apply readChunk_Next in E. lia.
Qed.

Lemma ReadPromptFromPNG_data_signature (r : bytes) :
  ReadPromptFromPNG_data (pngSignature ++ r) = readLoop r.
Proof.
  unfold ReadPromptFromPNG_data.
  rewrite (ReadFull_8 pngSignature r eq_refl).
  now rewrite bytes_eqb_refl.
Qed.

(** ** Chunks ahead of the loop *)

Lemma app_inj_length {A : Type} (a b x y : list A) :
  a ++ x = b ++ y -> length a = length b -> a = b /\ x = y.
Proof.
  revert b. induction a as [|h a IH]; intros [|k b] H Hl; try discriminate.
  - now split.
  - simpl in H. injection H as -> H. injection Hl as Hl.
    destruct (IH b H Hl) as [-> ->]. now split.
Qed.

Lemma serialize_all_app (cs ds : list chunk) :
  serialize_all (cs ++ ds) = serialize_all cs ++ serialize_all ds.
Proof. apply flat_map_app. Qed.

Lemma serialize_all_cons (c : chunk) (cs : list chunk) :
  serialize_all (c :: cs) = serialize c ++ serialize_all cs.
Proof. reflexivity. Qed.

Lemma serialize_length (c : chunk) :
  length (ctype c) = 4%nat -> length (serialize c) = (12 + length (cdata c))%nat.
Proof. intros H. unfold serialize. rewrite !length_app, !PutUint32_length. lia. Qed.

(** The loop passes over chunks that are neither a match nor terminal. *)
Lemma readLoop_skip (cs : list chunk) (rest : bytes) :
  Forall framed cs -> no_prompt cs -> Forall (fun c => ctype c <> IEND) cs ->
  readLoop (serialize_all cs ++ rest) = readLoop rest.
Proof.
  induction cs as [|c cs IH]; intros Hf Hp Hi; [reflexivity|].
  inversion Hf as [|? ? Hc Hf']; inversion Hp as [|? ? Hpc Hp'];
    inversion Hi as [|? ? Hic Hi']; subst.
  rewrite serialize_all_cons, <- app_assoc, readLoop_eq.
  rewrite readChunk_serialize by exact Hc. unfold turn_on.
  unfold is_prompt in Hpc. destruct (matchPrompt (ctype c) (cdata c)); [discriminate|].
  rewrite (bytes_eqb_neq _ _ Hic). now apply IH.
Qed.

(** The loop returns from the first match whatever follows it. *)
Lemma readLoop_match (c : chunk) (text rest : bytes) :
  framed c -> matchPrompt (ctype c) (cdata c) = Some text ->
  readLoop (serialize c ++ rest) = Ok text.
Proof.
  intros Hc Hm. rewrite readLoop_eq, readChunk_serialize by exact Hc.
  unfold turn_on. now rewrite Hm.
Qed.

Lemma IEND_chunk_serialize : IEND_chunk = serialize IEND_record.
Proof. reflexivity. Qed.

Lemma IEND_record_framed : framed IEND_record.
Proof. split; [reflexivity | unfold len; simpl; lia]. Qed.

(** The terminal chunk ends the loop with "no Prompt metadata found". *)
Lemma readLoop_IEND (rest : bytes) : readLoop (IEND_chunk ++ rest) = Err ErrNoPrompt.
Proof.
  rewrite IEND_chunk_serialize, readLoop_eq.
  rewrite readChunk_serialize by exact IEND_record_framed. reflexivity.
Qed.

Lemma readLoop_nil : readLoop [] = Err ErrNoPrompt.
Proof. reflexivity. Qed.

(** ** The chunk that is written *)

Lemma Prompt_no_null : ~ In x00 Prompt.
Proof. cbv. intuition discriminate. Qed.

Lemma matchPrompt_Prompt (text : bytes) :
  matchPrompt tEXt (Prompt ++ [x00] ++ text) = Some text.
Proof.
  unfold matchPrompt. rewrite bytes_eqb_refl.
  change (Prompt ++ [x00] ++ text) with (Prompt ++ x00 :: text).
  rewrite (IndexByte_app_first Prompt text x00 Prompt_no_null).
  change (Z.of_nat (length Prompt)) with 6%Z. cbv beta zeta.
  change (6 >? 0)%Z with true. cbv iota.
  change (Z.to_nat 6) with 6%nat. change (Z.to_nat (6 + 1)) with 7%nat.
  reflexivity.
Qed.

Lemma text_chunk_framed (keyword text : bytes) :
  len (keyword ++ [x00] ++ text) < 2 ^ 32 -> framed (text_chunk keyword text).
Proof. intros H. split; [reflexivity | exact H]. Qed.

Lemma text_chunk_crc_ok (keyword text : bytes) : crc_ok (text_chunk keyword text).
Proof. reflexivity. Qed.

Lemma createTextChunk_serialize (keyword text : bytes) :
  len (keyword ++ [x00] ++ text) < 2 ^ 32 ->
  createTextChunk keyword text = serialize (text_chunk keyword text).
Proof.
  intros H. unfold createTextChunk, serialize, text_chunk. cbv zeta. simpl ctype.
  simpl cdata. simpl ccrc. now rewrite uint32_small by exact H.
Qed.

Lemma len_Prompt_data (text : bytes) : len (Prompt ++ [x00] ++ text) = 7 + len text.
Proof.
  rewrite !len_app. change (len Prompt) with 6. change (len [x00]) with 1. lia.
Qed.

Lemma text_chunk_is_prompt (text : bytes) : is_prompt (text_chunk Prompt text) = true.
Proof. unfold is_prompt, text_chunk. cbn [ctype cdata]. now rewrite matchPrompt_Prompt. Qed.

(** ** The splice *)

Lemma insertBeforeIEND_splice (front tail textChunk : bytes) :
  length tail = 12%nat ->
  insertBeforeIEND (front ++ tail) textChunk = Ok (front ++ textChunk ++ tail).
Proof.
  intros Ht. unfold insertBeforeIEND.
  replace (len (front ++ tail) <? 12) with false
    by (symmetry; apply N.ltb_ge; unfold len; rewrite length_app; lia).
  unfold slice_to, slice_from.
  replace (length (front ++ tail) - 12)%nat with (length front)
    by (rewrite length_app; lia).
  rewrite firstn_app, skipn_app, Nat.sub_diag, firstn_all, skipn_all.
  simpl. now rewrite app_nil_r.
Qed.

Lemma container_splice (cs : list chunk) (b textChunk : bytes) :
  container_of cs b ->
  insertBeforeIEND b textChunk =
  Ok (pngSignature ++ serialize_all cs ++ textChunk ++ IEND_chunk).
Proof.
  intros (-> & _ & _). rewrite app_assoc.
  rewrite insertBeforeIEND_splice by reflexivity. now rewrite <- app_assoc.
Qed.

(** Embedding into a container gives the container with one chunk more. *)
Lemma insertPrompt_container (cs : list chunk) (b prompt : bytes) :
  container_of cs b -> 7 + len prompt < 2 ^ 32 ->
  exists b', insertPrompt b prompt = Ok b' /\
             container_of (cs ++ [text_chunk Prompt prompt]) b'.
Proof.
  intros Hb Hl. unfold insertPrompt. cbv zeta.
  rewrite (container_splice cs b _ Hb). eexists. split; [reflexivity|].
  destruct Hb as (_ & Hf & Hi). rewrite <- len_Prompt_data in Hl. split; [|split].
  - rewrite serialize_all_app, <- app_assoc.
    rewrite createTextChunk_serialize by exact Hl.
    change (serialize_all [text_chunk Prompt prompt])
      with (serialize (text_chunk Prompt prompt) ++ []).
    now rewrite app_nil_r.
  - apply Forall_app. split; [exact Hf|]. constructor; [|constructor].
    now apply text_chunk_framed.
  - apply Forall_app. split; [exact Hi|]. constructor; [|constructor].
    simpl. discriminate.
Qed.

(** ** The checksum fits 32 bits *)






(** ** Heads and tails of a buffer *)

Lemma firstn_front (front rest : bytes) (n : nat) :
  length front = n -> firstn n (front ++ rest) = front.
Proof.
  intros <-. rewrite firstn_app, Nat.sub_diag, firstn_all. simpl. apply app_nil_r.
Qed.

Lemma skipn_front (front rest : bytes) (n : nat) :
  length front = n -> skipn n (front ++ rest) = rest.
Proof. intros <-. now rewrite skipn_app, Nat.sub_diag, skipn_all. Qed.

Lemma skipn_tail (front tail : bytes) (n : nat) :
  length tail = n -> skipn (length (front ++ tail) - n) (front ++ tail) = tail.
Proof.
  intros <-. rewrite length_app.
  replace (length front + length tail - length tail)%nat with (length front) by lia.
  now apply skipn_front.
Qed.

(** * The insertion and the chunk *)

(** C3. For a buffer of at least twelve bytes the chunk is inserted twelve
    bytes before the end: the result is [data[:len-12]], the chunk, then
    [data[len-12:]], with no look at the chunks of [data].  A buffer of fewer
    than twelve bytes fails with "PNG file too short", a truncation error. *)
Theorem insertBeforeIEND_spec (data textChunk : bytes) :
  (12 <= len data ->
   insertBeforeIEND data textChunk =
   Ok (firstn (length data - 12) data ++ textChunk
       ++ skipn (length data - 12) data)) /\
  (len data < 12 ->
   insertBeforeIEND data textChunk = Err ErrTooShort /\
   kind_of ErrTooShort = TruncatedContainer).
Proof.
  unfold insertBeforeIEND, slice_to, slice_from. split; intros H.
  - apply N.ltb_ge in H. now rewrite H.
  - apply N.ltb_lt in H. now rewrite H.
Qed.

Lemma insertBeforeIEND_spec_witness :
  insertBeforeIEND minimal_png [x2a] =
    Ok (pngSignature ++ [x2a] ++ IEND_chunk) /\
  insertBeforeIEND pngSignature [x2a] = Err ErrTooShort.
Proof.
  split.
  - apply (proj1 (insertBeforeIEND_spec minimal_png [x2a])). vm_compute. discriminate.
  - apply (proj2 (insertBeforeIEND_spec pngSignature [x2a])). vm_compute. reflexivity.
Defined.



(** C9. Embedding into a valid container succeeds, and the result begins with
    the eight signature bytes of the input and ends with its last twelve
    bytes, the terminal chunk. *)
Theorem embed_keeps_signature_and_terminal (b t : bytes) :
  valid_container b ->
  exists b', insertPrompt b t = Ok b' /\
    firstn 8 b' = firstn 8 b /\ firstn 8 b' = pngSignature /\
    skipn (length b' - 12) b' = skipn (length b - 12) b /\
    skipn (length b' - 12) b' = IEND_chunk.
Proof.
  intros (cs & Hb & _). unfold insertPrompt. cbv zeta.
  rewrite (container_splice cs b _ Hb). destruct Hb as (-> & _ & _).
  eexists. split; [reflexivity|].
  rewrite !(firstn_front pngSignature _ 8 eq_refl).
  rewrite !(app_assoc pngSignature), !(app_assoc _ _ IEND_chunk).
  rewrite !(skipn_tail _ IEND_chunk 12 eq_refl). now repeat split.
Qed.

Lemma minimal_png_valid : valid_container minimal_png.
Proof.
  exists []. split; [split; [reflexivity | split; constructor] | constructor].
Qed.

Lemma embed_keeps_signature_and_terminal_witness :
  exists b', insertPrompt minimal_png (str "a sunset") = Ok b' /\
    firstn 8 b' = firstn 8 minimal_png /\ firstn 8 b' = pngSignature /\
    skipn (length b' - 12) b' = skipn (length minimal_png - 12) minimal_png /\
    skipn (length b' - 12) b' = IEND_chunk.
Proof.
  apply (embed_keeps_signature_and_terminal minimal_png (str "a sunset")).
  exact minimal_png_valid.
Defined.

(** C6, as the code has it.  Embedding "a sunset" into the minimal container
    (the 8 signature bytes, then the terminal chunk
    00 00 00 00 49 45 4E 44 AE 42 60 82) gives a buffer 12 + 15 bytes longer,
    15 being the length of "Prompt\0a sunset", and reading it back returns
    "a sunset". *)
Theorem sunset_scenario :
  minimal_png =
    [x89; x50; x4e; x47; x0d; x0a; x1a; x0a;
     x00; x00; x00; x00; x49; x45; x4e; x44; xae; x42; x60; x82] /\
  length (Prompt ++ [x00] ++ str "a sunset") = 15%nat /\
  exists b', insertPrompt minimal_png (str "a sunset") = Ok b' /\
    length b' = (length minimal_png + 12 + 15)%nat /\
    ReadPromptFromPNG_data b' = Ok (str "a sunset").
Proof.
  split; [reflexivity|]. split; [reflexivity|].
  eexists. split; [vm_compute; reflexivity|]. split; vm_compute; reflexivity.
Qed.

(** C6 as stated fails: the buffer grows by 12 + 15 bytes, not by 12 + 8. *)
Lemma sunset_length_not_plus_20 :
  exists b', insertPrompt minimal_png (str "a sunset") = Ok b' /\
    length b' = 47%nat /\ (length minimal_png + 12 + 8)%nat = 40%nat /\
    length b' <> (length minimal_png + 12 + 8)%nat.
Proof.
  eexists. split; [vm_compute; reflexivity|].
  split; [reflexivity|]. split; [reflexivity|]. vm_compute. discriminate.
Qed.

(** * Reading back *)

(** Reading returns the text of the first matching chunk, whatever bytes
    follow that chunk. *)
Lemma read_first_match (cs : list chunk) (c : chunk) (text rest : bytes) :
  Forall framed cs -> no_prompt cs -> Forall (fun c => ctype c <> IEND) cs ->
  framed c -> matchPrompt (ctype c) (cdata c) = Some text ->
  ReadPromptFromPNG_data (pngSignature ++ serialize_all cs ++ serialize c ++ rest)
  = Ok text.
Proof.
  intros Hf Hp Hi Hc Hm. rewrite ReadPromptFromPNG_data_signature.
  rewrite readLoop_skip by assumption. now apply readLoop_match.
Qed.

Lemma read_embedded (cs : list chunk) (t rest : bytes) :
  Forall framed cs -> no_prompt cs -> Forall (fun c => ctype c <> IEND) cs ->
  7 + len t < 2 ^ 32 ->
  ReadPromptFromPNG_data
    (pngSignature ++ serialize_all cs ++ createTextChunk Prompt t ++ rest) = Ok t.
Proof.
  intros Hf Hp Hi Hl. rewrite <- len_Prompt_data in Hl.
  rewrite createTextChunk_serialize by exact Hl.
  apply read_first_match; try assumption.
  - now apply text_chunk_framed.
  - apply matchPrompt_Prompt.
Qed.

(** C1, as the code has it.  For a valid container with no "Prompt" chunk and
    a text of fewer than 2^32 - 7 bytes, reading what the embedding gives
    returns the text. *)
Theorem round_trip_without_prior_prompt (cs : list chunk) (b t : bytes) :
  valid_container_of cs b -> no_prompt cs -> 7 + len t < 2 ^ 32 ->
  exists b', insertPrompt b t = Ok b' /\ ReadPromptFromPNG_data b' = Ok t.
Proof.
  intros [Hb _] Hp Hl. unfold insertPrompt. cbv zeta.
  rewrite (container_splice cs b _ Hb). destruct Hb as (_ & Hf & Hi).
  eexists. split; [reflexivity|]. now apply read_embedded.
Qed.

Lemma round_trip_without_prior_prompt_witness :
  exists b', insertPrompt minimal_png (str "a sunset") = Ok b' /\
             ReadPromptFromPNG_data b' = Ok (str "a sunset").
Proof.
  apply (round_trip_without_prior_prompt [] minimal_png (str "a sunset")).
  - split; [split; [reflexivity | split; constructor] | constructor].
  - constructor.
  - vm_compute. reflexivity.
Defined.

Lemma png_with_old_prompt_valid : valid_container png_with_old_prompt.
Proof.
  exists [text_chunk Prompt (str "old")]. split; [split; [|split]|].
  - vm_compute. reflexivity.
  - constructor; [|constructor]. apply text_chunk_framed. vm_compute. reflexivity.
  - constructor; [|constructor]. simpl. discriminate.
  - constructor; [|constructor]. apply text_chunk_crc_ok.
Qed.

(** C1 as stated fails: on a valid container that already holds the prompt
    "old", embedding "new" and reading gives "old". *)
Lemma round_trip_fails_after_prior_prompt :
  valid_container png_with_old_prompt /\
  exists b', insertPrompt png_with_old_prompt (str "new") = Ok b' /\
    ReadPromptFromPNG_data b' = Ok (str "old") /\
    ReadPromptFromPNG_data b' <> Ok (str "new").
Proof.
  split; [exact png_with_old_prompt_valid|].
  eexists. split; [vm_compute; reflexivity|].
  split; [vm_compute; reflexivity | vm_compute; discriminate].
Qed.

(** C2, as the code has it.  For a valid container with no "Prompt" chunk and
    a first text of fewer than 2^32 - 7 bytes, embedding [t1], then [t2],
    then reading returns [t1]; and reading returns [t1] whatever bytes follow
    the chunk of [t1], so nothing after the first match is looked at. *)
Theorem first_embedded_prompt_wins (cs : list chunk) (b t1 t2 : bytes) :
  valid_container_of cs b -> no_prompt cs -> 7 + len t1 < 2 ^ 32 ->
  (exists b1 b2, insertPrompt b t1 = Ok b1 /\ insertPrompt b1 t2 = Ok b2 /\
                 ReadPromptFromPNG_data b2 = Ok t1) /\
  (forall rest,
     ReadPromptFromPNG_data
       (pngSignature ++ serialize_all cs ++ createTextChunk Prompt t1 ++ rest)
     = Ok t1).
Proof.
  intros [Hb _] Hp Hl. split.
  - unfold insertPrompt. cbv zeta. rewrite (container_splice cs b _ Hb).
    destruct Hb as (_ & Hf & Hi). eexists. eexists. split; [reflexivity|].
    rewrite (app_assoc pngSignature), (app_assoc _ _ IEND_chunk).
    rewrite insertBeforeIEND_splice by reflexivity. split; [reflexivity|].
    rewrite <- !app_assoc. now apply read_embedded.
  - destruct Hb as (_ & Hf & Hi). intros rest. now apply read_embedded.
Qed.

Lemma first_embedded_prompt_wins_witness :
  exists b1 b2, insertPrompt minimal_png (str "first") = Ok b1 /\
                insertPrompt b1 (str "second") = Ok b2 /\
                ReadPromptFromPNG_data b2 = Ok (str "first").
Proof.
  apply (first_embedded_prompt_wins [] minimal_png (str "first") (str "second")).
  - split; [split; [reflexivity | split; constructor] | constructor].
  - constructor.
  - vm_compute. reflexivity.
Defined.

(** C2 as stated fails: on a valid container that already holds the prompt
    "old", embedding "first", then "second", and reading gives "old". *)
Lemma first_embedded_loses_to_prior_prompt :
  valid_container png_with_old_prompt /\
  exists b1 b2, insertPrompt png_with_old_prompt (str "first") = Ok b1 /\
    insertPrompt b1 (str "second") = Ok b2 /\
    ReadPromptFromPNG_data b2 = Ok (str "old") /\
    ReadPromptFromPNG_data b2 <> Ok (str "first").
Proof.
  split; [exact png_with_old_prompt_valid|].
  eexists. eexists. split; [vm_compute; reflexivity|].
  split; [vm_compute; reflexivity|].
  split; [vm_compute; reflexivity | vm_compute; discriminate].
Qed.

(** C7. Reading a well-formed container none of whose chunks is a "Prompt"
    text chunk fails with "no Prompt metadata found in PNG", the not-found
    error. *)
Theorem no_prompt_not_found (cs : list chunk) (b : bytes) :
  container_of cs b -> no_prompt cs ->
  ReadPromptFromPNG_data b = Err ErrNoPrompt /\
  kind_of ErrNoPrompt = RecordNotFound.
Proof.
  intros (-> & Hf & Hi) Hp. split; [|reflexivity].
  rewrite ReadPromptFromPNG_data_signature.
  rewrite readLoop_skip by assumption.
  rewrite <- (app_nil_r IEND_chunk). apply readLoop_IEND.
Qed.

Lemma png_with_header_container : container_of [header_record] png_with_header.
Proof.
  split; [reflexivity|]. split.
  - constructor; [|constructor]. split; [reflexivity | vm_compute; reflexivity].
  - constructor; [|constructor]. simpl. discriminate.
Qed.

Lemma no_prompt_not_found_witness :
  ReadPromptFromPNG_data png_with_header = Err ErrNoPrompt /\
  kind_of ErrNoPrompt = RecordNotFound.
Proof.
  apply (no_prompt_not_found [header_record] png_with_header).
  - exact png_with_header_container.
  - constructor; [reflexivity | constructor].
Defined.





(** * Truncated files *)

(** A turn that meets a chunk cut short, with at least one byte of it
    present, fails with the read error as it is. *)
Lemma readChunk_truncated (c : chunk) (p q : bytes) :
  framed c -> serialize c = p ++ q -> p <> [] -> q <> [] ->
  exists e, readChunk p = Fail (ErrIO e).
Proof.
  intros [Ht Hl] Hs Hp Hq. unfold serialize in Hs. unfold readChunk.
  destruct (binary_Read_uint32 p) as [e|[n r1]] eqn:E1.
  { unfold binary_Read_uint32 in E1.
    destruct (ReadFull 4 p) as [e'|[? ?]] eqn:E; [|discriminate].
    injection E1 as <-. apply ReadFull_fails in E as [_ He].
    destruct e'; [|now exists ErrUnexpectedEOF].
    exfalso. apply Hp. now apply He. }
  pose proof E1 as E1'. apply binary_Read_uint32_inv in E1' as (a1 & -> & H1).
  rewrite <- app_assoc in Hs. symmetry in Hs.
  apply app_inj_length in Hs as [-> Hs]; [|now rewrite PutUint32_length].
  rewrite binary_Read_uint32_PutUint32 in E1 by exact Hl.
  injection E1 as <-.
  destruct (ReadFull 4 r1) as [e|[ty r2]] eqn:E2; [now exists e|].
  apply ReadFull_inv in E2 as [-> H2]. rewrite <- app_assoc in Hs.
  apply app_inj_length in Hs as [-> Hs]; [|unfold len in H2; lia].
  destruct (ReadFull (len (cdata c)) r2) as [e|[da r3]] eqn:E3; [now exists e|].
  apply ReadFull_inv in E3 as [-> H3]. rewrite <- app_assoc in Hs.
  apply app_inj_length in Hs as [-> Hs]; [|unfold len in H3; lia].
  destruct (binary_Read_uint32 r3) as [e|[crc r4]] eqn:E4; [now exists e|].
  exfalso. apply binary_Read_uint32_inv in E4 as (a4 & -> & H4).
  apply (f_equal (@Datatypes.length byte)) in Hs.
  rewrite !length_app, PutUint32_length in Hs.
  destruct q; [now apply Hq | simpl in Hs; lia].
Qed.

(** C5, as the code has it.  When the file is the signature, whole chunks
    that are neither a match nor terminal, and then a chunk cut short of which
    at least one byte is present, reading fails with [io.EOF] or
    [io.ErrUnexpectedEOF] as it is, a truncation error.  When the file ends
    right after such whole chunks, reading fails with "no Prompt metadata
    found in PNG", the not-found error. *)
Theorem truncated_chunk_rejected (cs : list chunk) (c : chunk) (p q : bytes) :
  Forall framed cs -> no_prompt cs -> Forall (fun c => ctype c <> IEND) cs ->
  framed c -> serialize c = p ++ q -> p <> [] -> q <> [] ->
  (exists e, ReadPromptFromPNG_data (pngSignature ++ serialize_all cs ++ p)
             = Err (ErrIO e) /\
             kind_of (ErrIO e) = TruncatedContainer) /\
  ReadPromptFromPNG_data (pngSignature ++ serialize_all cs) = Err ErrNoPrompt /\
  kind_of ErrNoPrompt = RecordNotFound.
Proof.
  intros Hf Hp Hi Hc Hs Hne Hq. split; [|split; [|reflexivity]].
  - destruct (readChunk_truncated c p q Hc Hs Hne Hq) as [e He].
    exists e. split; [|reflexivity].
    rewrite ReadPromptFromPNG_data_signature, readLoop_skip by assumption.
    now rewrite readLoop_eq, He.
  - rewrite ReadPromptFromPNG_data_signature.
    rewrite <- (app_nil_r (serialize_all cs)).
    now rewrite readLoop_skip by assumption.
Qed.

Lemma truncated_chunk_rejected_witness :
  (exists e, ReadPromptFromPNG_data
               (pngSignature ++ serialize_all [header_record]
                ++ [x00; x00; x00; x00; x49])
             = Err (ErrIO e) /\
             kind_of (ErrIO e) = TruncatedContainer) /\
  ReadPromptFromPNG_data (pngSignature ++ serialize_all [header_record])
    = Err ErrNoPrompt /\
  kind_of ErrNoPrompt = RecordNotFound.
Proof.
  apply (truncated_chunk_rejected [header_record] IEND_record
           [x00; x00; x00; x00; x49]
           [x45; x4e; x44; xae; x42; x60; x82]).
  - constructor; [|constructor]. split; [reflexivity | vm_compute; reflexivity].
  - constructor; [reflexivity | constructor].
  - constructor; [|constructor]. simpl. discriminate.
  - exact IEND_record_framed.
  - reflexivity.
  - discriminate.
  - discriminate.
Defined.

(** C5 as stated fails: a file that is the signature and nothing more ends
    before any terminal chunk, and reading it gives the not-found error, not
    a truncation error. *)
Lemma signature_only_is_not_found :
  ReadPromptFromPNG_data pngSignature = Err ErrNoPrompt /\
  kind_of ErrNoPrompt = RecordNotFound /\
  kind_of ErrNoPrompt <> TruncatedContainer.
Proof. split; [reflexivity|]. split; [reflexivity | discriminate]. Qed.

(** * Further properties of reading *)

(** What the loop gives on whole chunks: the text of the first match among
    them, or what it gives on the bytes after them. *)
Lemma readLoop_chunks (cs : list chunk) (rest : bytes) :
  Forall framed cs -> Forall (fun c => ctype c <> IEND) cs ->
  readLoop (serialize_all cs ++ rest) =
  match first_prompt cs with
  | Some text => Ok text
  | None => readLoop rest
  end.
Proof.
  induction cs as [|c cs IH]; intros Hf Hi; [reflexivity|].
  inversion Hf as [|? ? Hc Hf']; inversion Hi as [|? ? Hic Hi']; subst.
  rewrite serialize_all_cons, <- app_assoc, readLoop_eq.
  rewrite readChunk_serialize by exact Hc. unfold turn_on. simpl first_prompt.
  destruct (matchPrompt (ctype c) (cdata c)); [reflexivity|].
  rewrite (bytes_eqb_neq _ _ Hic). now apply IH.
Qed.

(** X1. Reading a well-formed container gives the text of its first "Prompt"
    text chunk in file order, and the not-found error when it has none. *)
Theorem read_container_first_prompt (cs : list chunk) (b : bytes) :
  container_of cs b ->
  ReadPromptFromPNG_data b =
  match first_prompt cs with
  | Some text => Ok text
  | None => Err ErrNoPrompt
  end.
Proof.
  intros (-> & Hf & Hi). rewrite ReadPromptFromPNG_data_signature.
  rewrite readLoop_chunks by assumption.
  destruct (first_prompt cs); [reflexivity|].
  rewrite <- (app_nil_r IEND_chunk). apply readLoop_IEND.
Qed.

Lemma read_container_first_prompt_witness :
  ReadPromptFromPNG_data png_with_header = Err ErrNoPrompt.
Proof.
  apply (read_container_first_prompt [header_record] png_with_header).
  exact png_with_header_container.
Defined.

(** X2. Embedding into a container that already holds a "Prompt" chunk does
    not change what is read: the text read after the embedding is the one
    read before, whatever the new text is. *)
Theorem embed_keeps_existing_prompt (cs : list chunk) (b t old : bytes) :
  container_of cs b -> first_prompt cs = Some old ->
  exists b', insertPrompt b t = Ok b' /\
             ReadPromptFromPNG_data b' = Ok old /\
             ReadPromptFromPNG_data b = Ok old.
Proof.
  intros Hb Hold. unfold insertPrompt. cbv zeta.
  rewrite (container_splice cs b _ Hb). eexists. split; [reflexivity|].
  rewrite (read_container_first_prompt cs b Hb), Hold.
  destruct Hb as (_ & Hf & Hi).
  rewrite ReadPromptFromPNG_data_signature, readLoop_chunks by assumption.
  now rewrite Hold.
Qed.

Lemma png_with_old_prompt_container :
  container_of [text_chunk Prompt (str "old")] png_with_old_prompt.
Proof.
  split; [vm_compute; reflexivity|]. split.
  - constructor; [|constructor]. apply text_chunk_framed. vm_compute. reflexivity.
  - constructor; [|constructor]. simpl. discriminate.
Qed.

Lemma embed_keeps_existing_prompt_witness :
  exists b', insertPrompt png_with_old_prompt (str "new") = Ok b' /\
             ReadPromptFromPNG_data b' = Ok (str "old") /\
             ReadPromptFromPNG_data png_with_old_prompt = Ok (str "old").
Proof.
  apply (embed_keeps_existing_prompt [text_chunk Prompt (str "old")]).
  - exact png_with_old_prompt_container.
  - vm_compute. reflexivity.
Defined.

Lemma IndexByte_found (b : bytes) (c : byte) (n : nat) :
  IndexByte b c = Z.of_nat n ->
  b = firstn n b ++ c :: skipn (S n) b /\ ~ In c (firstn n b).
Proof.
  revert n. induction b as [|x b IH]; intros n; simpl.
  - lia.
  - destruct (Byte.eqb x c) eqn:E.
    + intros H. assert (n = 0%nat) by lia. subst n. apply byte_dec_bl in E.
      subst. simpl. split; [reflexivity | tauto].
    + destruct (IndexByte b c <? 0)%Z eqn:El; [lia|].
      apply Z.ltb_ge in El. intros H. destruct n as [|n]; [lia|].
      destruct (IH n) as [Hb Hn]; [lia|].
      change (firstn (S n) (x :: b)) with (x :: firstn n b).
      change (skipn (S (S n)) (x :: b)) with (skipn (S n) b). split.
      * rewrite <- app_comm_cons. now f_equal.
      * intros [->|Hin]; [|now apply Hn].
        now rewrite (byte_dec_lb eq_refl) in E.
Qed.

(** X3. A chunk is a match exactly when its type is "tEXt" and its data is
    "Prompt", a null byte, and the text; the text is all that follows the
    first null byte, further null bytes included. *)
Theorem matchPrompt_iff (chunkType chunkData text : bytes) :
  matchPrompt chunkType chunkData = Some text <->
  chunkType = tEXt /\ chunkData = Prompt ++ x00 :: text.
Proof.
  split.
  - unfold matchPrompt. destruct (bytes_eqb chunkType tEXt) eqn:Et; [|discriminate].
    apply bytes_eqb_eq in Et. cbv zeta.
    destruct (IndexByte chunkData x00 >? 0)%Z eqn:Ep; [|discriminate].
    apply Z.gtb_lt in Ep.
    destruct (bytes_eqb (slice_to chunkData (Z.to_nat (IndexByte chunkData x00)))
                        Prompt) eqn:Ek; [|discriminate].
    apply bytes_eqb_eq in Ek. intros [= <-]. split; [exact Et|].
    unfold slice_to, slice_from in *.
    destruct (IndexByte_found chunkData x00 (Z.to_nat (IndexByte chunkData x00)))
      as [Hd _]; [lia|].
    rewrite Ek in Hd. rewrite Hd at 1.
    replace (Z.to_nat (IndexByte chunkData x00 + 1))
      with (S (Z.to_nat (IndexByte chunkData x00))) by lia.
    reflexivity.
  - intros [-> ->]. apply matchPrompt_Prompt.
Qed.

(** What a turn that returns, and a turn that goes on, have read. *)
Lemma readChunk_Return (r text : bytes) :
  readChunk r = Return text ->
  exists a1 a4 rest,
    r = a1 ++ tEXt ++ (Prompt ++ x00 :: text) ++ a4 ++ rest /\
    length a1 = 4%nat /\ length a4 = 4%nat /\ Uint32 a1 = 7 + len text.
Proof.
  unfold readChunk.
  destruct (binary_Read_uint32 r) as [[|]|[n r1]] eqn:E1; try discriminate.
  destruct (ReadFull 4 r1) as [e|[ty r2]] eqn:E2; [discriminate|].
  destruct (ReadFull n r2) as [e|[da r3]] eqn:E3; [discriminate|].
  destruct (binary_Read_uint32 r3) as [e|[crc r4]] eqn:E4; [discriminate|].
  destruct (matchPrompt ty da) as [t|] eqn:Em;
    [|destruct (bytes_eqb ty IEND); discriminate].
  intros [= ->]. apply matchPrompt_iff in Em as [-> ->].
  pose proof E1 as E1'. apply binary_Read_uint32_inv in E1' as (a1 & -> & H1).
  rewrite (binary_Read_uint32_any a1 r1 H1) in E1. injection E1 as <-.
  apply ReadFull_inv in E2 as [-> _]. apply ReadFull_inv in E3 as [-> H3].
  apply binary_Read_uint32_inv in E4 as (a4 & -> & H4).
  exists a1, a4, r4. split; [reflexivity|]. split; [exact H1|]. split; [exact H4|].
  rewrite <- H3. change (Prompt ++ x00 :: text) with (Prompt ++ [x00] ++ text).
  apply len_Prompt_data.
Qed.

Lemma readChunk_Next_suffix (r r' : bytes) :
  readChunk r = Next r' -> exists skipped, r = skipped ++ r'.
Proof.
  unfold readChunk.
  destruct (binary_Read_uint32 r) as [[|]|[n r1]] eqn:E1; try discriminate.
  destruct (ReadFull 4 r1) as [e|[ty r2]] eqn:E2; [discriminate|].
  destruct (ReadFull n r2) as [e|[da r3]] eqn:E3; [discriminate|].
  destruct (binary_Read_uint32 r3) as [e|[crc r4]] eqn:E4; [discriminate|].
  destruct (matchPrompt ty da); [discriminate|].
  destruct (bytes_eqb ty IEND); [discriminate|]. intros [= <-].
  apply binary_Read_uint32_inv in E1 as (a1 & -> & _).
  apply ReadFull_inv in E2 as [-> _]. apply ReadFull_inv in E3 as [-> _].
  apply binary_Read_uint32_inv in E4 as (a4 & -> & _).
  exists (a1 ++ ty ++ da ++ a4). now rewrite <- !app_assoc.
Qed.

Lemma readLoop_sound (r text : bytes) :
  readLoop r = Ok text ->
  exists before a1 a4 rest,
    r = before ++ a1 ++ tEXt ++ (Prompt ++ x00 :: text) ++ a4 ++ rest /\
    length a1 = 4%nat /\ length a4 = 4%nat /\ Uint32 a1 = 7 + len text.
Proof.
  remember (length r) as n eqn:Hn. revert r Hn.
  induction n as [n IH] using lt_wf_ind. intros r -> H.
  rewrite readLoop_eq in H. destruct (readChunk r) as [t|e|r'] eqn:E.
  - injection H as ->. apply readChunk_Return in E as (a1 & a4 & rest & -> & H').
    exists [], a1, a4, rest. now split.
  - discriminate.
  - pose proof (readChunk_Next r r' E) as Hlen.
    apply readChunk_Next_suffix in E as [skipped ->].
    destruct (IH (length r')) with (r := r')
      as (before & a1 & a4 & rest & -> & H'); [lia | reflexivity | exact H |].
    exists (skipped ++ before), a1, a4, rest.
    split; [now rewrite <- (app_assoc skipped before) | exact H'].
Qed.

(** X4. A text that is read lies in the file: the file is the signature,
    some bytes, then a four-byte length equal to 7 + len(text), "tEXt",
    "Prompt", a null byte, the text, four more bytes, and the rest. *)
Theorem read_sound (data text : bytes) :
  ReadPromptFromPNG_data data = Ok text ->
  exists before a1 a4 rest,
    data = pngSignature ++ before ++ a1 ++ tEXt ++ (Prompt ++ x00 :: text)
           ++ a4 ++ rest /\
    length a1 = 4%nat /\ length a4 = 4%nat /\ Uint32 a1 = 7 + len text.
Proof.
  unfold ReadPromptFromPNG_data.
  destruct (ReadFull 8 data) as [e|[sig r]] eqn:E; [discriminate|].
  destruct (bytes_eqb sig pngSignature) eqn:Es; [|discriminate]. simpl.
  apply bytes_eqb_eq in Es. subst sig. apply ReadFull_inv in E as [-> _].
  intros H. apply readLoop_sound in H as (before & a1 & a4 & rest & -> & H').
  exists before, a1, a4, rest. now split.
Qed.

Lemma read_sound_witness :
  exists before a1 a4 rest,
    png_with_old_prompt =
      pngSignature ++ before ++ a1 ++ tEXt ++ (Prompt ++ x00 :: str "old")
      ++ a4 ++ rest /\
    length a1 = 4%nat /\ length a4 = 4%nat /\ Uint32 a1 = 7 + len (str "old").
Proof.
  apply (read_sound png_with_old_prompt (str "old")). vm_compute. reflexivity.
Defined.

Lemma readChunks_mono (f1 f2 : nat) (r : bytes) (res : result bytes) :
  (f1 <= f2)%nat -> readChunks f1 r = Some res -> readChunks f2 r = Some res.
Proof.
  revert f2 r. induction f1 as [|f1 IH]; intros f2 r Hle H; [discriminate|].
  destruct f2 as [|f2]; [lia|]. simpl in *.
  destruct (readChunk r); try exact H. apply IH; [lia | exact H].
Qed.

(** X5. The loop ends on every file: with one turn per twelve bytes left,
    plus one, the bound on the turns is not reached, and the result is that
    of [readLoop]. *)
Theorem readChunks_terminates (r : bytes) :
  exists res, readChunks (S (length r / 12)) r = Some res /\ readLoop r = res.
Proof.
  remember (length r) as n eqn:Hn. revert r Hn.
  induction n as [n IH] using lt_wf_ind. intros r ->.
  rewrite readLoop_eq. cbn [readChunks].
  destruct (readChunk r) as [t|e|r'] eqn:E.
  - now exists (Ok t).
  - now exists (Err e).
  - apply readChunk_Next in E.
    destruct (IH (length r')) with (r := r') as (res & Hres & Hloop);
      [lia | reflexivity |].
    exists res. split; [|exact Hloop].
    apply (readChunks_mono (S (length r' / 12))); [|exact Hres].
    replace (S (length r' / 12)) with ((length r' + 1 * 12) / 12)%nat
      by (rewrite Nat.div_add by discriminate; lia).
    apply Nat.Div0.div_le_mono. lia.
Qed.

(** X6. A file that does not begin with the eight signature bytes is never
    read as having a prompt: the read fails with "failed to read PNG
    signature" when it has fewer than eight bytes and with "not a valid PNG
    file" otherwise, both format errors. *)
Theorem non_png_rejected (data : bytes) :
  firstn 8 data <> pngSignature ->
  (len data < 8 ->
   exists e, ReadPromptFromPNG_data data = Err (ErrReadSignature e) /\
             (e = EOF <-> data = [])) /\
  (8 <= len data -> ReadPromptFromPNG_data data = Err ErrNotPNG) /\
  exists e, ReadPromptFromPNG_data data = Err e /\
            kind_of e = UnsupportedFormat.
Proof.
  intros Hsig. unfold ReadPromptFromPNG_data.
  destruct (ReadFull 8 data) as [e|[sig r]] eqn:E.
  - apply ReadFull_fails in E as [Hl He]. split; [|split].
    + intros _. now exists e.
    + lia.
    + now exists (ErrReadSignature e).
  - apply ReadFull_inv in E as [-> Hl].
    assert (Hs : sig <> pngSignature).
    { intros ->. apply Hsig. now apply firstn_front. }
    rewrite (bytes_eqb_neq _ _ Hs). simpl. split; [|split].
    + rewrite len_app. lia.
    + reflexivity.
    + now exists ErrNotPNG.
Qed.

Lemma non_png_rejected_witness :
  ReadPromptFromPNG_data (jpegMagic ++ pngSignature) = Err ErrNotPNG /\
  exists e, ReadPromptFromPNG_data jpegMagic = Err (ErrReadSignature e) /\
            (e = EOF <-> jpegMagic = []).
Proof.
  split.
  - apply (non_png_rejected (jpegMagic ++ pngSignature)).
    + vm_compute. discriminate.
    + vm_compute. discriminate.
  - apply (non_png_rejected jpegMagic).
    + vm_compute. discriminate.
    + vm_compute. reflexivity.
Defined.

(** * Further properties of embedding *)

Lemma Ok_inj {A : Type} (x y : A) : Ok x = Ok y -> x = y.
Proof. intros H. now injection H. Qed.

Lemma createTextChunk_length (keyword text : bytes) :
  length (createTextChunk keyword text)
  = (13 + length keyword + length text)%nat.
Proof.
  unfold createTextChunk. cbv zeta. rewrite !length_app, !PutUint32_length.
  change (length tEXt) with 4%nat. simpl. lia.
Qed.

(** X7. Whenever the embedding succeeds the buffer grows by 19 bytes plus the
    length of the text, whatever the buffer holds and however long the text
    is; nothing is replaced or removed. *)
Theorem insertPrompt_length (b t b' : bytes) :
  insertPrompt b t = Ok b' ->
  length b' = (length b + 19 + length t)%nat /\ (12 <= length b)%nat.
Proof.
  unfold insertPrompt, insertBeforeIEND. cbv zeta.
  destruct (len b <? 12) eqn:E; [discriminate|]. apply N.ltb_ge in E.
  unfold len in E. intros H. apply Ok_inj in H. subst b'.
  unfold slice_to, slice_from.
  rewrite !length_app, createTextChunk_length, length_firstn, length_skipn.
  change (length Prompt) with 6%nat. lia.
Qed.

Lemma insertPrompt_length_witness :
  exists b', insertPrompt minimal_png (str "a sunset") = Ok b' /\
             length b' = (length minimal_png + 19 + length (str "a sunset"))%nat.
Proof.
  eexists. split; [vm_compute; reflexivity|].
  apply (insertPrompt_length minimal_png (str "a sunset")). vm_compute. reflexivity.
Defined.

(** X8. Embedding keeps a container valid: the result is the container of
    the same chunks followed by the new "Prompt" chunk, whose length field
    and checksum are right, and then the terminal chunk. *)
Theorem embed_preserves_validity (cs : list chunk) (b t : bytes) :
  valid_container_of cs b -> 7 + len t < 2 ^ 32 ->
  exists b', insertPrompt b t = Ok b' /\
             valid_container_of (cs ++ [text_chunk Prompt t]) b'.
Proof.
  intros [Hb Hcrc] Hl.
  destruct (insertPrompt_container cs b t Hb Hl) as (b' & Hi & Hb').
  exists b'. split; [exact Hi|]. split; [exact Hb'|].
  apply Forall_app. split; [exact Hcrc|]. constructor; [|constructor].
  apply text_chunk_crc_ok.
Qed.

Lemma embed_preserves_validity_witness :
  exists b', insertPrompt png_with_old_prompt (str "new") = Ok b' /\
    valid_container_of
      ([text_chunk Prompt (str "old")] ++ [text_chunk Prompt (str "new")]) b'.
Proof.
  apply (embed_preserves_validity [text_chunk Prompt (str "old")]).
  - split; [exact png_with_old_prompt_container|].
    constructor; [|constructor]. apply text_chunk_crc_ok.
  - vm_compute. reflexivity.
Defined.






(** X10. The chunk goes twelve bytes before the end of the file, not before
    the terminal chunk: when at least twelve bytes follow the terminal chunk
    of a container with no "Prompt" chunk, the embedding succeeds and the
    prompt is not found by reading, the new chunk lying after the terminal
    chunk. *)
Theorem prompt_lost_after_trailing_bytes (cs : list chunk) (b trailing t : bytes) :
  container_of cs b -> no_prompt cs -> (12 <= length trailing)%nat ->
  exists b', insertPrompt (b ++ trailing) t = Ok b' /\
             ReadPromptFromPNG_data b' = Err ErrNoPrompt.
Proof.
  intros (-> & Hf & Hi) Hp Hl. unfold insertPrompt. cbv zeta.
  set (k := (length trailing - 12)%nat).
  rewrite <- (firstn_skipn k trailing).
  assert (Htail : length (skipn k trailing) = 12%nat)
    by (rewrite length_skipn; unfold k; lia).
  rewrite (app_assoc _ (firstn k trailing)).
  rewrite insertBeforeIEND_splice by exact Htail.
  eexists. split; [reflexivity|]. rewrite <- !app_assoc.
  rewrite ReadPromptFromPNG_data_signature, readLoop_skip by assumption.
  apply readLoop_IEND.
Qed.

Lemma prompt_lost_after_trailing_bytes_witness :
  exists b', insertPrompt (minimal_png ++ IEND_chunk) (str "a sunset") = Ok b' /\
             ReadPromptFromPNG_data b' = Err ErrNoPrompt.
Proof.
  apply (prompt_lost_after_trailing_bytes [] minimal_png IEND_chunk).
  - split; [reflexivity | split; constructor].
  - constructor.
  - vm_compute. lia.
Defined.

(** * Files *)

Lemma contents_store_same (p : string) (d : bytes) (fs : filesystem) :
  contents (store p d fs) p = Some d.
Proof. simpl. now rewrite String.eqb_refl. Qed.

Lemma contents_store_other (p q : string) (d : bytes) (fs : filesystem) :
  q <> p -> contents (store p d fs) q = contents fs q.
Proof. intros H. simpl. apply String.eqb_neq in H. now rewrite H. Qed.






Section Files.

Variable image : Type.
Variable jpeg_Decode : bytes -> option image.
Variable png_Encode : image -> bytes * bool.

Local Abbreviation AddPrompt := (AddPromptToPNG image jpeg_Decode png_Encode).
Local Abbreviation convertJPEG := (convertJPEGToPNG image jpeg_Decode png_Encode).





(** X15. [AddPromptToPNG] touches the named file only: whatever it returns,
    every other path holds what it held, and what can be written has not
    changed. *)
Theorem AddPromptToPNG_frame
    (fs fs' : filesystem) (path : string) (t : bytes) (r : option error) :
  AddPrompt path t fs = (r, fs') ->
  (forall q, q <> path -> contents fs' q = contents fs q) /\
  (forall q, writable fs' q = writable fs q).
Proof.
  assert (Hstore : forall d f,
            (forall q, q <> path -> contents f q = contents fs q) /\
            (forall q, writable f q = writable fs q) ->
            (forall q, q <> path -> contents (store path d f) q = contents fs q) /\
            (forall q, writable (store path d f) q = writable fs q)).
  { intros d f [H1 H2]. split; intros q.
    - intros Hq. rewrite contents_store_other by exact Hq. now apply H1.
    - apply H2. }
  assert (Hsame : (forall q, q <> path -> contents fs q = contents fs q) /\
                  (forall q, writable fs q = writable fs q)) by now split.
  assert (Hins : forall data f r' f',
            (forall q, q <> path -> contents f q = contents fs q) /\
            (forall q, writable f q = writable fs q) ->
            insertAndWrite path data t f = (r', f') ->
            (forall q, q <> path -> contents f' q = contents fs q) /\
            (forall q, writable f' q = writable fs q)).
  { intros data f r' f' Hf. unfold insertAndWrite, WriteFile.
    destruct (insertPrompt data t) as [e1|newData]; [now intros [= _ <-]|].
    destruct (writable f path); intros [= _ <-]; [now apply Hstore | exact Hf]. }
  unfold AddPromptToPNG, ReadFile.
  destruct (contents fs path) as [data|] eqn:Hc; [|now intros [= _ <-]].
  destruct (isPNG data); [now apply Hins|].
  destruct (isJPEG data); simpl negb; cbv iota; [|now intros [= _ <-]].
  unfold convertJPEGToPNG. rewrite Hc.
  destruct (jpeg_Decode data) as [img|]; [|now intros [= _ <-]].
  destruct (writable fs path); [|now intros [= _ <-]].
  destruct (png_Encode img) as [written ok]. destruct ok.
  - rewrite contents_store_same. apply Hins. now apply Hstore.
  - intros [= _ <-]. now apply Hstore.
Qed.

End Files.





Lemma AddPromptToPNG_frame_witness :
  contents
    (snd (AddPromptToPNG unit (fun _ => None) (fun _ => ([], false))
            "out.png" (str "a sunset") sample_fs)) "note.txt"
  = contents sample_fs "note.txt".
Proof.
  apply (AddPromptToPNG_frame unit (fun _ => None) (fun _ => ([], false))
           sample_fs _ "out.png" (str "a sunset")
           (fst (AddPromptToPNG unit (fun _ => None) (fun _ => ([], false))
                   "out.png" (str "a sunset") sample_fs))).
  - apply surjective_pairing.
  - discriminate.
Defined.
